(** * AlertIQ, speech-to-text anomaly service: the distress classifier
      ([app/distress.py]) and the voice-analysis handler ([app/main.py]).

    The development is a shallow embedding of the two Python modules.

    - A Python [str] is a [string] of the Standard Library; its characters
      are read as the code points U+0000 to U+00FF.  On that range
      [str.lower], [str.strip] and the [in] operator are embedded exactly
      (one code point maps to one code point, nothing depends on context).
    - The handler runs in a small state-and-exception monad [Py] over a
      [World] that holds the module global [model], the files on disk and
      a log of the calls made to the outside (whisper, the file system).
      What the outside answers is read from an [Externals] record, so every
      external call may return or raise, and may answer differently each
      time it is made.  The disk is a finite map from paths to contents,
      beside the set of paths that an open file object holds: creating a
      file needs a free name; [os.unlink] removes a file that no object
      holds open, and asks the outside about one that is still open (POSIX
      removes it, Windows raises). *)

From Stdlib Require Import Ascii NArith Bool.
From stdpp Require Import gmap strings list fin_maps.

Local Open Scope N_scope.

(** ** Python string built-ins *)

Module PyStr.

(** Code point of a character. *)
Definition ord (c : ascii) : N := N_of_ascii c.

(** The code points below U+0100 that [str.lower] changes: A-Z, and the
    Latin-1 capitals U+00C0-U+00DE without the multiplication sign
    U+00D7.  Each of them is sent to the code point 32 above. *)
Definition is_cased_upper (c : ascii) : bool :=
  let n := ord c in
  ((65 <=? n) && (n <=? 90))
  || ((192 <=? n) && (n <=? 222) && negb (n =? 215)).

Definition lower_char (c : ascii) : ascii :=
  if is_cased_upper c then ascii_of_N (ord c + 32) else c.

(** [s.lower()] *)
Fixpoint lower (s : string) : string :=
  match s with
  | EmptyString => EmptyString
  | String c s' => String (lower_char c) (lower s')
  end.

(** [s.startswith(p)] *)
Fixpoint startswith (s p : string) {struct p} : bool :=
  match p with
  | EmptyString => true
  | String a p' =>
      match s with
      | EmptyString => false
      | String b s' => Ascii.eqb a b && startswith s' p'
      end
  end.

(** [p in s]: [p] occurs in [s] at some offset. *)
Fixpoint contains (s p : string) : bool :=
  startswith s p
  || match s with
     | EmptyString => false
     | String _ s' => contains s' p
     end.

(** [c.isspace()] below U+0100: tab, line feed, vertical tab, form feed,
    carriage return, the four separators U+001C-U+001F, space, next line
    U+0085 and no-break space U+00A0. *)
Definition isspace (c : ascii) : bool :=
  let n := ord c in
  ((9 <=? n) && (n <=? 13)) || ((28 <=? n) && (n <=? 32))
  || (n =? 133) || (n =? 160).

Fixpoint lstrip (s : string) : string :=
  match s with
  | EmptyString => EmptyString
  | String c s' => if isspace c then lstrip s' else s
  end.

Fixpoint rstrip (s : string) : string :=
  match s with
  | EmptyString => EmptyString
  | String c s' =>
      match rstrip s' with
      | EmptyString => if isspace c then EmptyString else String c EmptyString
      | r => String c r
      end
  end.

(** [s.strip()] *)
Definition strip (s : string) : string := rstrip (lstrip s).

(** Two strings are equal up to letter case when they have the same
    length and agree, position by position, after lowering. *)
Fixpoint caseless_eq (s t : string) : bool :=
  match s, t with
  | EmptyString, EmptyString => true
  | String a s', String b t' =>
      Ascii.eqb (lower_char a) (lower_char b) && caseless_eq s' t'
  | _, _ => false
  end.

(** No character of [s] is changed by [lower]. *)
Fixpoint is_lowered (s : string) : bool :=
  match s with
  | EmptyString => true
  | String c s' => negb (is_cased_upper c) && is_lowered s'
  end.

(** [s] is not empty and its first character is no whitespace. *)
Definition starts_nonspace (s : string) : bool :=
  match s with
  | EmptyString => false
  | String c _ => negb (isspace c)
  end.

(** [s] is not empty and its last character is no whitespace. *)
Fixpoint ends_nonspace (s : string) : bool :=
  match s with
  | EmptyString => false
  | String c EmptyString => negb (isspace c)
  | String _ s' => ends_nonspace s'
  end.

End PyStr.

(** ** [app/distress.py] *)

Module Distress.
Import PyStr.

Definition distress_phrases : list string :=
  [ "help";
    "save me";
    "i need help";
    "please help";
    "i am in danger";
    "someone is attacking me";
    "someone is following me";
    "i am scared";
    "call the police";
    "emergency";
    "Save";
    "Someone is chasing me" ].

Definition is_unsafe (text : string) : bool :=
  let text := lower text in
  existsb (fun phrase => contains text phrase) distress_phrases.

(** The phrase list without its two mixed-case entries, and the classifier
    over that list. *)
Definition pruned_phrases : list string :=
  filter (fun p => p ≠ "Save" ∧ p ≠ "Someone is chasing me") distress_phrases.

Definition is_unsafe_pruned (text : string) : bool :=
  let text := lower text in
  existsb (fun phrase => contains text phrase) pruned_phrases.

(** The entries that no other entry makes redundant: the list without
    its two mixed-case entries and without the two entries that contain
    the entry "help". *)
Definition core_phrases : list string :=
  filter (fun p => p ≠ "i need help" ∧ p ≠ "please help") pruned_phrases.

Definition is_unsafe_core (text : string) : bool :=
  let text := lower text in
  existsb (fun phrase => contains text phrase) core_phrases.

End Distress.

(** ** The world the handler runs in *)

Module Runtime.

(** A Python exception, by the name of its class. *)
Inductive exn := Exn (cls : string).

(** A loaded whisper model; [id] is the identity of the Python object. *)
Inductive Model := ModelObj (id : nat).

(** The dictionary [transcribe] returns; only ["text"] is read. *)
Record TranscriptionResult := { text : string }.

(** The uploaded file: what [await file.read()] yields. *)
Record UploadFile := { body : exn + list Byte.byte }.

(** Calls made to the outside, newest first in the log. *)
Inductive event :=
| EvMkstemp (r : exn + string)
| EvWrite (name : string) (r : option exn)
| EvClose (name : string) (r : option exn)
| EvLoadModel (name : string) (r : exn + Model)
| EvTranscribe (m : Model) (name : string) (r : exn + TranscriptionResult)
| EvUnlink (name : string)
| EvUnlinkFailed (name : string) (e : exn).

(** What the outside answers.  Every answer may depend on the calls made
    so far, so a call that raised once may return the next time. *)
Record Externals := {
  (** directory and random stem [tempfile] settles on for a new file *)
  tmp_stem : list event -> exn + string;
  (** [temp.write(data)] and [temp.close()]: [Some e] raises [e] *)
  io_write : list event -> string -> list Byte.byte -> option exn;
  io_close : list event -> string -> option exn;
  (** [os.unlink(path)] of a file that an object still holds open: [None]
      where the platform removes it (POSIX), [Some e] where it raises
      (Windows, [PermissionError]) *)
  io_unlink : list event -> string -> option exn;
  (** [whisper.load_model(name)] *)
  load_model : list event -> string -> exn + Model;
  (** [m.transcribe(path, task=..., fp16=...)] on the bytes found at [path] *)
  transcribe :
    list event -> Model -> string -> option (list Byte.byte) -> string -> bool ->
    exn + TranscriptionResult
}.

Record World := {
  model : option Model;             (** the module global [model] *)
  files : gmap string (list Byte.byte);  (** the files on disk, by path *)
  handles : gset string;            (** the paths held open by a file object *)
  log : list event
}.

Definition set_model (g : option Model) (w : World) : World :=
  {| model := g; files := files w; handles := handles w; log := log w |}.
Definition set_files (fs : gmap string (list Byte.byte)) (w : World) : World :=
  {| model := model w; files := fs; handles := handles w; log := log w |}.
Definition set_handles (hs : gset string) (w : World) : World :=
  {| model := model w; files := files w; handles := hs; log := log w |}.
Definition record (e : event) (w : World) : World :=
  {| model := model w; files := files w; handles := handles w; log := e :: log w |}.

(** The world of a process that has just imported [app.main]. *)
Definition initial_world (fs : gmap string (list Byte.byte)) : World :=
  {| model := None; files := fs; handles := ∅; log := [] |}.

(** *** The monad: state that survives an exception *)

Inductive outcome (A : Type) :=
| Return (a : A)
| Raise (e : exn).
Arguments Return {A} a.
Arguments Raise {A} e.

Definition Py (A : Type) : Type := World -> outcome A * World.

Definition ret {A} (a : A) : Py A := fun w => (Return a, w).

Definition raise {A} (e : exn) : Py A := fun w => (Raise e, w).

Definition bind {A B} (c : Py A) (k : A -> Py B) : Py B :=
  fun w =>
    match c w with
    | (Return a, w') => k a w'
    | (Raise e, w') => (Raise e, w')
    end.

(** [try: body finally: fin].  The cleanup runs on both exits of [body];
    an exception of the cleanup replaces the pending result. *)
Definition try_finally {A} (body : Py A) (fin : Py unit) : Py A :=
  fun w =>
    match body w with
    | (r, w1) =>
        match fin w1 with
        | (Return _, w2) => (r, w2)
        | (Raise e, w2) => (Raise e, w2)
        end
    end.

Definition of_sum {A} (r : exn + A) : outcome A :=
  match r with inl e => Raise e | inr a => Return a end.

Definition of_status (r : option exn) : outcome unit :=
  match r with Some e => Raise e | None => Return tt end.

(** The monad is registered with stdpp's classes, which gives the
    notations [x ← c; k] and [c ;; k]. *)
#[global] Instance Py_ret : MRet Py := @ret.
#[global] Instance Py_bind : MBind Py := fun A B k c => bind c k.

(** Number of [whisper.load_model] calls in the log that returned a model. *)
Fixpoint loads (l : list event) : nat :=
  match l with
  | [] => 0%nat
  | EvLoadModel _ (inr _) :: l' => S (loads l')
  | _ :: l' => loads l'
  end.

(** Number of [whisper.load_model] calls in the log, failed ones included. *)
Fixpoint load_calls (l : list event) : nat :=
  match l with
  | [] => 0%nat
  | EvLoadModel _ _ :: l' => S (load_calls l')
  | _ :: l' => load_calls l'
  end.



(** 1 when the global holds a model, 0 when it is [None]. *)
Definition loaded (g : option Model) : nat :=
  match g with Some _ => 1 | None => 0 end.

(** The calls a computation makes when it is run from [w], newest first:
    what its run adds in front of the log. *)
Definition events_of {A} (c : Py A) (w : World) : list event :=
  take (length (log (c w).2) - length (log w)) (log (c w).2).

End Runtime.

(** ** [app/main.py] *)

Module Main.
Import PyStr Distress Runtime.

(** The response dictionary, with its three fixed keys. *)
Record AnalysisResponse := {
  unsafe : bool;
  english_text : string;
  trigger : string
}.

(** The object [tempfile.NamedTemporaryFile] returns. *)
Record TempFile := { name : string }.

Section Handler.
Variable ext : Externals.

(** *** Library calls *)

(** [await file.read()] *)
Definition read (file : UploadFile) : Py (list Byte.byte) :=
  fun w => (of_sum (body file), w).

(** [tempfile.NamedTemporaryFile(suffix=..., delete=False)]: a new,
    empty file under a name that was free ([tempfile] gives up with
    [FileExistsError] when it finds none), held open by the object; the
    file stays on disk when the object is closed. *)
Definition NamedTemporaryFile (suffix : string) : Py TempFile :=
  fun w =>
    let r :=
      match tmp_stem ext (log w) with
      | inl e => inl e
      | inr stem =>
          let path := stem +:+ suffix in
          match files w !! path with
          | Some _ => inl (Exn "FileExistsError")
          | None => inr path
          end
      end in
    let w := record (EvMkstemp r) w in
    match r with
    | inl e => (Raise e, w)
    | inr path =>
        (Return {| name := path |},
         set_handles ({[path]} ∪ handles w) (set_files (<[path := []]> (files w)) w))
    end.

(** [temp.write(data)] *)
Definition write (temp : TempFile) (data : list Byte.byte) : Py unit :=
  fun w =>
    let r := io_write ext (log w) (name temp) data in
    let w := record (EvWrite (name temp) r) w in
    match r with
    | Some e => (Raise e, w)
    | None => (Return tt, set_files (alter (fun old => old ++ data) (name temp) (files w)) w)
    end.

(** [temp.close()]: flushes, which may raise, and gives up the file in
    either case. *)
Definition close (temp : TempFile) : Py unit :=
  fun w =>
    let r := io_close ext (log w) (name temp) in
    (of_status r,
     set_handles (handles w ∖ {[name temp]}) (record (EvClose (name temp) r) w)).

(** [os.path.exists(path)] *)
Definition os_path_exists (path : string) : Py bool :=
  fun w => (Return (bool_decide (is_Some (files w !! path))), w).

(** [os.unlink(path)]: a file that no object holds open is removed; for
    one that is still open the platform decides. *)
Definition os_unlink (path : string) : Py unit :=
  fun w =>
    match files w !! path with
    | None => (Raise (Exn "FileNotFoundError"), w)
    | Some _ =>
        let r :=
          if bool_decide (path ∈ handles w)
          then io_unlink ext (log w) path
          else None in
        match r with
        | Some e => (Raise e, record (EvUnlinkFailed path e) w)
        | None =>
            (Return tt,
             record (EvUnlink path) (set_files (delete path (files w)) w))
        end
    end.

(** [whisper.load_model(name)] *)
Definition whisper_load_model (nm : string) : Py Model :=
  fun w =>
    let r := load_model ext (log w) nm in
    (of_sum r, record (EvLoadModel nm r) w).

(** [m.transcribe(path, task=task, fp16=fp16)] *)
Definition model_transcribe (m : Model) (path task : string) (fp16 : bool)
  : Py TranscriptionResult :=
  fun w =>
    let r := transcribe ext (log w) m path (files w !! path) task fp16 in
    (of_sum r, record (EvTranscribe m path r) w).

(** Reading and assigning the global [model]. *)
Definition global_model : Py (option Model) := fun w => (Return (model w), w).
Definition assign_model (m : Model) : Py unit :=
  fun w => (Return tt, set_model (Some m) w).

(** *** The module's two functions *)

Definition get_model : Py Model :=
  g ← global_model;
  match g with
  | None =>
      m ← whisper_load_model "small";
      assign_model m;;
      mret m
  | Some m => mret m
  end.

Definition analyze_voice (file : UploadFile) : Py AnalysisResponse :=
  audio_bytes ← read file;
  temp ← NamedTemporaryFile ".wav";
  try_finally
    (write temp audio_bytes;;
     close temp;;
     m ← get_model;
     result ← model_transcribe m (name temp) "translate" false;
     let english_text := strip (text result) in
     let unsafe := is_unsafe english_text in
     mret {| unsafe := unsafe;
             english_text := english_text;
             trigger := if unsafe then "VOICE_HELP" else "NONE" |})
    (ex ← os_path_exists (name temp);
     if ex : bool then os_unlink (name temp) else mret tt).

(** The two blocks of the [try] statement of [analyze_voice], by name. *)
Definition try_block (temp : TempFile) (audio_bytes : list Byte.byte)
  : Py AnalysisResponse :=
  write temp audio_bytes;;
  close temp;;
  m ← get_model;
  result ← model_transcribe m (name temp) "translate" false;
  let english_text := strip (text result) in
  let unsafe := is_unsafe english_text in
  mret {| unsafe := unsafe;
          english_text := english_text;
          trigger := if unsafe then "VOICE_HELP" else "NONE" |}.

Definition finally_block (temp : TempFile) : Py unit :=
  ex ← os_path_exists (name temp);
  if ex : bool then os_unlink (name temp) else mret tt.

(** *** Sequential execution of a process *)

Inductive op :=
| CallGetModel
| CallAnalyzeVoice (file : UploadFile).

Definition run_op (o : op) (w : World) : World :=
  match o with
  | CallGetModel => snd (get_model w)
  | CallAnalyzeVoice file => snd (analyze_voice file w)
  end.

Definition run_ops (ops : list op) (w : World) : World :=
  foldl (fun w o => run_op o w) w ops.

End Handler.

End Main.

Import PyStr Distress Runtime Main.

(** ** The paths of the handler *)

Module Paths.
Import Runtime Main.

(** What [get_model] does, by the global it finds: the calls it makes,
    its outcome and the global it leaves. *)
Inductive load_path (g : option Model)
  : list event -> outcome Model -> option Model -> Prop :=
| load_cached m :
    g = Some m -> load_path g [] (Return m) (Some m)
| load_first m :
    g = None -> load_path g [EvLoadModel "small" (inr m)] (Return m) (Some m)
| load_raises e :
    g = None -> load_path g [EvLoadModel "small" (inl e)] (Raise e) None.

(** What the [try] block does with the temporary file [p], from the
    global [g]. *)
Inductive try_path (p : string) (g : option Model)
  : list event -> outcome AnalysisResponse -> option Model -> Prop :=
| try_write e :
    try_path p g [EvWrite p (Some e)] (Raise e) g
| try_close e :
    try_path p g [EvClose p (Some e); EvWrite p None] (Raise e) g
| try_load evs e g' :
    load_path g evs (Raise e) g' ->
    try_path p g (evs ++ [EvClose p None; EvWrite p None]) (Raise e) g'
| try_transcribe evs m e g' :
    load_path g evs (Return m) g' ->
    try_path p g
      (EvTranscribe m p (inl e) :: evs ++ [EvClose p None; EvWrite p None])
      (Raise e) g'
| try_response evs m res g' :
    load_path g evs (Return m) g' ->
    try_path p g
      (EvTranscribe m p (inr res) :: evs ++ [EvClose p None; EvWrite p None])
      (Return {| unsafe := is_unsafe (strip (text res));
                 english_text := strip (text res);
                 trigger := if is_unsafe (strip (text res))
                            then "VOICE_HELP" else "NONE" |})
      g'.

(** What [analyze_voice] does on the upload [file], from the files [fs]
    and the global [g]: the calls it makes, its outcome, the global and the
    files it leaves.  It stops before a temporary file exists; or it
    creates the file [p], runs the [try] block and unlinks [p]; or the
    write raised, the file is still open, and the unlink raises too. *)
Inductive handler_path (file : UploadFile) (fs : gmap string (list Byte.byte))
  (g : option Model)
  : list event -> outcome AnalysisResponse -> option Model ->
    gmap string (list Byte.byte) -> Prop :=
| path_read e :
    body file = inl e ->
    handler_path file fs g [] (Raise e) g fs
| path_mkstemp e :
    handler_path file fs g [EvMkstemp (inl e)] (Raise e) g fs
| path_try p evs r g' :
    fs !! p = None ->
    try_path p g evs r g' ->
    handler_path file fs g (EvUnlink p :: evs ++ [EvMkstemp (inr p)]) r g' fs
| path_unlink_raises p e e' :
    fs !! p = None ->
    handler_path file fs g
      [EvUnlinkFailed p e'; EvWrite p (Some e); EvMkstemp (inr p)]
      (Raise e') g (<[p := []]> fs).

(** A path keeps a global that is set and makes no [load_model] call
    then; in any case the loads it makes are the ones the global shows. *)
Definition keeps_model (g : option Model) (evs : list event) (g' : option Model)
  : Prop :=
  (forall m, g = Some m -> g' = Some m /\ load_calls evs = 0%nat)
  /\ (loads evs + loaded g = loaded g')%nat.

End Paths.

(** ** Example worlds *)

Module Examples.
Import Runtime Main.

(** An outside where every call returns: whisper hears [heard]. *)
Definition calm (heard : string) : Externals :=
  {| tmp_stem := fun _ => inr "/tmp/tmpk3v9x2ab";
     io_write := fun _ _ _ => None;
     io_close := fun _ _ => None;
     io_unlink := fun _ _ => None;
     load_model := fun _ _ => inr (ModelObj 1);
     transcribe := fun _ _ _ _ _ _ => inr {| text := heard |} |}.

(** An outside where the first [load_model] call raises and the next ones
    return, and where transcription raises. *)
Definition stormy : Externals :=
  {| tmp_stem := fun _ => inr "/tmp/tmpk3v9x2ab";
     io_write := fun _ _ _ => None;
     io_close := fun _ _ => None;
     io_unlink := fun _ _ => None;
     load_model := fun l _ =>
       match load_calls l with
       | O => inl (Exn "RuntimeError")
       | S n => inr (ModelObj n)
       end;
     transcribe := fun _ _ _ _ _ _ => inl (Exn "RuntimeError") |}.


(** An outside whose whisper hears "help" in a file of four bytes that it
    is asked to translate without fp16, and raises on anything else. *)
Definition picky : Externals :=
  {| tmp_stem := fun _ => inr "/tmp/tmpk3v9x2ab";
     io_write := fun _ _ _ => None;
     io_close := fun _ _ => None;
     io_unlink := fun _ _ => None;
     load_model := fun _ _ => inr (ModelObj 1);
     transcribe := fun _ _ _ content task fp16 =>
       match content with
       | Some [_; _; _; _] =>
           if String.eqb task "translate" && negb fp16
           then inr {| text := "help" |}
           else inl (Exn "ValueError")
       | _ => inl (Exn "ValueError")
       end |}.

(** A Windows host with a full disk: the write raises, and so does the
    unlink of the file that is then still open. *)
Definition windows_disk_full : Externals :=
  {| tmp_stem := fun _ => inr "/tmp/tmpk3v9x2ab";
     io_write := fun _ _ _ => Some (Exn "OSError");
     io_close := fun _ _ => None;
     io_unlink := fun _ _ => Some (Exn "PermissionError");
     load_model := fun _ _ => inr (ModelObj 1);
     transcribe := fun _ _ _ _ _ _ => inr {| text := "help" |} |}.

(** A POSIX host with a full disk: the write raises, the unlink of the
    open file returns. *)
Definition posix_disk_full : Externals :=
  {| tmp_stem := fun _ => inr "/tmp/tmpk3v9x2ab";
     io_write := fun _ _ _ => Some (Exn "OSError");
     io_close := fun _ _ => None;
     io_unlink := fun _ _ => None;
     load_model := fun _ _ => inr (ModelObj 1);
     transcribe := fun _ _ _ _ _ _ => inr {| text := "help" |} |}.

Definition upload : UploadFile := {| body := inr [Byte.x52; Byte.x49; Byte.x46; Byte.x46] |}.

(** The temporary file of the example runs. *)
Definition tmp : string := "/tmp/tmpk3v9x2ab.wav".

(** A process in the stormy outside after a [get_model] call, whose load
    raised, and a request, whose load returned. *)
Definition warm : World :=
  run_ops stormy [CallGetModel; CallAnalyzeVoice upload] (initial_world ∅).

End Examples.

(** * Evaluation on the transcripts of the specification *)

Example ex_help_me : is_unsafe "HELP ME" = true /\ is_unsafe "help me" = true.
Proof. split; reflexivity. Qed.

Example ex_please_help : is_unsafe "please help me now" = true.
Proof. reflexivity. Qed.

Example ex_weather : is_unsafe "the weather is nice today" = false.
Proof. reflexivity. Qed.

Example ex_pruned : pruned_phrases = take 10 distress_phrases.
Proof. reflexivity. Qed.

Example ex_strip :
  strip (String "009" "  please help me now " +:+ String "010" EmptyString)
  = "please help me now".
Proof. reflexivity. Qed.

Example ex_lower_latin1 : lower (String "201" "COLE") = String "233" "cole".
Proof. reflexivity. Qed.

(** * Facts about the string built-ins *)

Module PyStrFacts.

Lemma app_nil (s : string) : EmptyString +:+ s = s.
Proof. reflexivity. Qed.

Lemma app_cons (c : ascii) (s t : string) :
  String c s +:+ t = String c (s +:+ t).
Proof. reflexivity. Qed.

Lemma app_nil_r (s : string) : s +:+ EmptyString = s.
Proof. induction s as [|c s IH]; [done|]. by rewrite app_cons, IH. Qed.

Lemma app_assoc (a b c : string) : (a +:+ b) +:+ c = a +:+ b +:+ c.
Proof. induction a as [|x a IH]; [done|]. by rewrite !app_cons, IH. Qed.

(** [startswith] and [contains] against their meaning. *)

Lemma startswith_spec (s p : string) :
  startswith s p = true <-> exists b, s = p +:+ b.
Proof.
  revert s. induction p as [|a p IH]; intros s; simpl.
  - split; [intros _; by exists s | done].
  - destruct s as [|b s].
    + split; [done | intros [t Ht]; discriminate Ht].
    + rewrite andb_true_iff, Ascii.eqb_eq, IH. split.
      * intros [-> [t ->]]. by exists t.
      * intros [t Ht]. rewrite app_cons in Ht. injection Ht as -> ->. eauto.
Qed.

Lemma contains_spec (s p : string) :
  contains s p = true <-> exists a b, s = a +:+ p +:+ b.
Proof.
  induction s as [|c s IH].
  - simpl. rewrite orb_false_r, startswith_spec. split.
    + intros [b Hb]. by exists EmptyString, b.
    + intros [[|x a] [b Hb]]; [by exists b | discriminate Hb].
  - cbn [contains]. rewrite orb_true_iff, startswith_spec, IH. split.
    + intros [[b Hb] | (a & b & ->)].
      * by exists EmptyString, b.
      * by exists (String c a), b.
    + intros [[|x a] [b Hb]].
      * left. by exists b.
      * right. rewrite app_cons in Hb. injection Hb as -> ->. by exists a, b.
Qed.

Lemma contains_app_r (s t p : string) :
  contains s p = true -> contains (s +:+ t) p = true.
Proof.
  rewrite !contains_spec. intros (a & b & ->).
  exists a, (b +:+ t). by rewrite !app_assoc.
Qed.

Lemma contains_app_l (s t p : string) :
  contains s p = true -> contains (t +:+ s) p = true.
Proof.
  rewrite !contains_spec. intros (a & b & ->).
  exists (t +:+ a), b. by rewrite !app_assoc.
Qed.

(** [lower], character by character. *)

Lemma lower_char_idem (c : ascii) : lower_char (lower_char c) = lower_char c.
Proof. destruct c as [[] [] [] [] [] [] [] []]; reflexivity. Qed.

Lemma lower_char_not_upper (c : ascii) : is_cased_upper (lower_char c) = false.
Proof. destruct c as [[] [] [] [] [] [] [] []]; reflexivity. Qed.

Lemma lower_char_fix (c : ascii) : is_cased_upper c = false -> lower_char c = c.
Proof. unfold lower_char. by intros ->. Qed.

Lemma lower_app (a b : string) : lower (a +:+ b) = lower a +:+ lower b.
Proof. induction a as [|c a IH]; [done|]. rewrite app_cons. simpl. by rewrite IH. Qed.

Lemma lower_idem (s : string) : lower (lower s) = lower s.
Proof. induction s as [|c s IH]; [done|]. simpl. by rewrite lower_char_idem, IH. Qed.

Lemma is_lowered_lower (s : string) : is_lowered (lower s) = true.
Proof. induction s as [|c s IH]; [done|]. simpl. by rewrite lower_char_not_upper, IH. Qed.

Lemma is_lowered_app (a b : string) :
  is_lowered (a +:+ b) = is_lowered a && is_lowered b.
Proof.
  induction a as [|c a IH]; [done|].
  rewrite app_cons. simpl. by rewrite IH, andb_assoc.
Qed.

Lemma is_lowered_fix (p : string) : is_lowered p = true -> lower p = p.
Proof.
  induction p as [|c p IH]; [done|]. simpl.
  intros [Hc Hp]%andb_true_iff. apply negb_true_iff in Hc.
  by rewrite lower_char_fix, IH.
Qed.

(** A string with a cased capital is never found in a lowered string. *)
Lemma contains_lowered (s p : string) :
  is_lowered s = true -> contains s p = true -> is_lowered p = true.
Proof.
  intros Hs (a & b & ->)%contains_spec.
  rewrite !is_lowered_app in Hs.
  by apply andb_true_iff in Hs as [_ [Hp _]%andb_true_iff].
Qed.

Lemma not_lowered_absent (s p : string) :
  is_lowered p = false -> contains (lower s) p = false.
Proof.
  intros Hp. destruct (contains (lower s) p) eqn:Hc; [|done].
  apply contains_lowered in Hc; [congruence | apply is_lowered_lower].
Qed.

Lemma caseless_eq_spec (s t : string) :
  caseless_eq s t = true <-> lower s = lower t.
Proof.
  revert t. induction s as [|a s IH]; intros [|b t]; simpl; try done.
  rewrite andb_true_iff, Ascii.eqb_eq, IH. split.
  - by intros [-> ->].
  - intros H. by injection H.
Qed.

Lemma caseless_eq_lower (s : string) : caseless_eq s (lower s) = true.
Proof. apply caseless_eq_spec. by rewrite lower_idem. Qed.

End PyStrFacts.

(** * The distress classifier *)

Section Classifier.
Import PyStrFacts.

Lemma is_unsafe_true (s : string) :
  is_unsafe s = true
  <-> exists p, In p distress_phrases /\ contains (lower s) p = true.
Proof. unfold is_unsafe. apply existsb_exists. Qed.

Lemma is_unsafe_lower_eq (s t : string) :
  lower s = lower t -> is_unsafe s = is_unsafe t.
Proof. unfold is_unsafe. by intros ->. Qed.

(** Every entry of the list but the last two is fixed by [lower]. *)
Lemma phrase_cases (p : string) :
  In p distress_phrases ->
  lower p = p \/ p = "Save" \/ p = "Someone is chasing me".
Proof.
  unfold distress_phrases. simpl.
  intros H.
  repeat (destruct H as [<- | H];
          [solve [left; reflexivity | right; left; reflexivity | right; right; reflexivity] |]).
  destruct H.
Qed.

Lemma in_pruned (p : string) :
  In p pruned_phrases <-> In p distress_phrases /\ lower p = p.
Proof.
  split.
  - intros H. vm_compute in H.
    repeat (destruct H as [<- | H]; [split; [vm_compute; tauto | reflexivity] |]).
    destruct H.
  - intros [H Hp]. destruct (phrase_cases p H) as [_ | [-> | ->]];
      [| discriminate Hp | discriminate Hp].
    unfold distress_phrases in H. simpl in H.
    repeat (destruct H as [<- | H]; [solve [vm_compute; tauto | discriminate Hp] |]).
    destruct H.
Qed.

(** C1, at the input the claim fails on.  The list entry
    "Someone is chasing me" occurs in the transcript "Someone is chasing
    me" as a case-insensitive substring (the two lowered strings are the
    same), and so does the entry "Save" in "save", yet [is_unsafe] returns
    false for both transcripts. *)
Theorem C1_mixed_case_phrases_missed :
  (In "Someone is chasing me" distress_phrases
   /\ contains (lower "Someone is chasing me") (lower "Someone is chasing me") = true
   /\ is_unsafe "Someone is chasing me" = false)
  /\ (In "Save" distress_phrases
      /\ contains (lower "save") (lower "Save") = true
      /\ is_unsafe "save" = false).
Proof. repeat split; vm_compute; tauto. Qed.

(** C2: for every string [s], [is_unsafe s] is true if and only if some
    phrase of the list, exactly as the source writes it, occurs as a
    contiguous substring of [lower s]; it is false otherwise. *)
Theorem C2_is_unsafe_iff_phrase_in_lowered (s : string) :
  (is_unsafe s = true
   <-> exists p, In p distress_phrases /\ exists a b, lower s = a +:+ p +:+ b)
  /\ (is_unsafe s = false
      <-> ~ exists p, In p distress_phrases /\ exists a b, lower s = a +:+ p +:+ b).
Proof.
  assert (is_unsafe s = true
          <-> exists p, In p distress_phrases /\ exists a b, lower s = a +:+ p +:+ b)
    as Hiff.
  { rewrite is_unsafe_true. by setoid_rewrite contains_spec. }
  split; [exact Hiff|].
  rewrite <- Hiff. by destruct (is_unsafe s).
Qed.

(** C3: the entries "Save" and "Someone is chasing me" are dead.  Neither
    is ever found in a lowered input, and for every string [s] the
    classifier agrees with the one built from the list without them. *)
Theorem C3_mixed_case_entries_dead (s : string) :
  is_unsafe s = is_unsafe_pruned s
  /\ contains (lower s) "Save" = false
  /\ contains (lower s) "Someone is chasing me" = false.
Proof.
  assert (contains (lower s) "Save" = false) as H1
    by (by apply not_lowered_absent).
  assert (contains (lower s) "Someone is chasing me" = false) as H2
    by (by apply not_lowered_absent).
  split; [|done].
  unfold is_unsafe, is_unsafe_pruned. cbn zeta.
  change pruned_phrases with (take 10 distress_phrases).
  unfold distress_phrases. cbn [take existsb].
  by rewrite H1, H2, !orb_false_r.
Qed.

(** C6: for every string [s] in which no phrase of the list occurs as a
    case-insensitive substring, [is_unsafe s] is false. *)
Theorem C6_no_phrase_then_safe (s : string) :
  (forall p, In p distress_phrases -> contains (lower s) (lower p) = false) ->
  is_unsafe s = false.
Proof.
  intros Hno. destruct (is_unsafe s) eqn:Hs; [|done].
  apply is_unsafe_true in Hs as (p & Hp & Hc).
  assert (lower p = p) as Hfix.
  { apply is_lowered_fix. eapply contains_lowered; [apply is_lowered_lower | exact Hc]. }
  specialize (Hno p Hp). rewrite Hfix in Hno. congruence.
Qed.

Lemma C6_witness :
  (forall p, In p distress_phrases ->
             contains (lower "the weather is nice today") (lower p) = false)
  /\ is_unsafe "the weather is nice today" = false.
Proof.
  assert (forall p, In p distress_phrases ->
                    contains (lower "the weather is nice today") (lower p) = false)
    as Hno.
  { intros p H. unfold distress_phrases in H. simpl in H.
    repeat (destruct H as [<- | H]; [reflexivity |]). destruct H. }
  split; [exact Hno | exact (C6_no_phrase_then_safe _ Hno)].
Defined.

(** C7: [is_unsafe] does not depend on the casing of its input.  For every
    string [s], [is_unsafe s] is [is_unsafe (lower s)]; and for all strings
    [s] and [t] that are equal up to letter case, [is_unsafe s] is
    [is_unsafe t] ("HELP ME" and "help me" are both flagged). *)
Theorem C7_invariant_under_input_casing (s t : string) :
  is_unsafe s = is_unsafe (lower s)
  /\ (caseless_eq s t = true -> is_unsafe s = is_unsafe t).
Proof.
  split.
  - apply is_unsafe_lower_eq. by rewrite lower_idem.
  - intros Heq%caseless_eq_spec. by apply is_unsafe_lower_eq.
Qed.

Lemma C7_witness :
  caseless_eq "HELP ME" "help me" = true
  /\ is_unsafe "HELP ME" = is_unsafe "help me"
  /\ is_unsafe "help me" = true.
Proof.
  split; [reflexivity|]. split; [|reflexivity].
  apply (C7_invariant_under_input_casing "HELP ME" "help me"). reflexivity.
Defined.

(** C8: [is_unsafe] of the empty string is false; the empty string is not an entry of the
    list and no entry occurs in it. *)
Theorem C8_empty_string_is_safe :
  is_unsafe EmptyString = false
  /\ Forall (fun p => p <> EmptyString /\ contains EmptyString p = false)
       distress_phrases.
Proof.
  split; [reflexivity|].
  unfold distress_phrases. repeat constructor; discriminate.
Qed.

(** C10: [is_unsafe] is monotone under extension.  For all strings [s]
    and [t], if [is_unsafe s] is true then so are [is_unsafe (s +:+ t)]
    and [is_unsafe (t +:+ s)]. *)
Theorem C10_monotone_under_extension (s t : string) :
  is_unsafe s = true ->
  is_unsafe (s +:+ t) = true /\ is_unsafe (t +:+ s) = true.
Proof.
  intros (p & Hp & Hc)%is_unsafe_true.
  split; apply is_unsafe_true; exists p; (split; [exact Hp|]); rewrite lower_app.
  - by apply contains_app_r.
  - by apply contains_app_l.
Qed.

Lemma C10_witness :
  is_unsafe "i am scared" = true
  /\ is_unsafe ("i am scared" +:+ " of the dark") = true
  /\ is_unsafe ("well, " +:+ "i am scared") = true.
Proof.
  split; [reflexivity|]. split.
  - apply (C10_monotone_under_extension "i am scared" " of the dark"). reflexivity.
  - apply (C10_monotone_under_extension "i am scared" "well, "). reflexivity.
Defined.

End Classifier.

(** * The voice-analysis handler *)

Section HandlerFacts.
Import Paths.
Variable ext : Externals.

Lemma events_of_app {A} (c : Py A) (w : World) (evs : list event) :
  log (c w).2 = evs ++ log w -> events_of c w = evs.
Proof.
  intros H. unfold events_of. rewrite H, length_app.
  replace (length evs + length (log w) - length (log w))%nat with (length evs) by lia.
  by rewrite take_app_length.
Qed.

Lemma loads_app (l1 l2 : list event) : loads (l1 ++ l2) = (loads l1 + loads l2)%nat.
Proof.
  induction l1 as [|[] l1 IH]; simpl; try done.
  case_match; simpl; by rewrite IH.
Qed.

(** [get_model], by cases on the global and on what whisper answers. *)
Lemma get_model_cached (w : World) (m : Model) :
  model w = Some m -> get_model ext w = (Return m, w).
Proof. intros H. unfold get_model, mbind, Py_bind, bind, global_model. by rewrite H. Qed.

Lemma get_model_first (w : World) (m : Model) :
  model w = None -> load_model ext (log w) "small" = inr m ->
  get_model ext w
  = (Return m, set_model (Some m) (record (EvLoadModel "small" (inr m)) w)).
Proof.
  intros H Hm.
  unfold get_model, mbind, Py_bind, bind, global_model, whisper_load_model.
  by rewrite H, Hm.
Qed.

Lemma get_model_raises (w : World) (e : exn) :
  model w = None -> load_model ext (log w) "small" = inl e ->
  get_model ext w = (Raise e, record (EvLoadModel "small" (inl e)) w).
Proof.
  intros H He.
  unfold get_model, mbind, Py_bind, bind, global_model, whisper_load_model.
  by rewrite H, He.
Qed.

Lemma get_model_path (w : World) :
  exists evs,
    load_path (model w) evs (get_model ext w).1 (model (get_model ext w).2)
    /\ log (get_model ext w).2 = evs ++ log w
    /\ files (get_model ext w).2 = files w.
Proof.
  destruct (model w) as [m|] eqn:Hg.
  - exists []. rewrite (get_model_cached w m Hg). simpl. rewrite Hg.
    by repeat split; [constructor|..].
  - destruct (load_model ext (log w) "small") as [e|m] eqn:Hl.
    + exists [EvLoadModel "small" (inl e)].
      rewrite (get_model_raises w e Hg Hl). simpl. rewrite Hg.
      by repeat split; [constructor|..].
    + exists [EvLoadModel "small" (inr m)].
      rewrite (get_model_first w m Hg Hl). simpl.
      by repeat split; [constructor|..].
Qed.

Lemma get_model_handles (w : World) : handles (get_model ext w).2 = handles w.
Proof.
  unfold get_model, mbind, Py_bind, bind, global_model, whisper_load_model.
  destruct (model w); [done|]. simpl.
  by destruct (load_model ext (log w) "small").
Qed.

Lemma analyze_voice_blocks (file : UploadFile) :
  analyze_voice ext file
  = (audio_bytes ← read file;
     temp ← NamedTemporaryFile ext ".wav";
     try_finally (try_block ext temp audio_bytes) (finally_block ext temp)).
Proof. reflexivity. Qed.

(** The [finally] block on a file that exists: it is removed when no
    object holds it open, and the outside is asked when one does. *)
Lemma finally_block_closed (temp : TempFile) (w : World) :
  is_Some (files w !! name temp) ->
  name temp ∉ handles w ->
  finally_block ext temp w
  = (Return tt,
     record (EvUnlink (name temp)) (set_files (delete (name temp) (files w)) w)).
Proof.
  intros [x Hx] Hclosed.
  unfold finally_block, mbind, Py_bind, bind, os_path_exists, os_unlink.
  rewrite bool_decide_eq_true_2 by eauto. rewrite Hx.
  by rewrite bool_decide_eq_false_2.
Qed.

Lemma finally_block_open (temp : TempFile) (w : World) :
  is_Some (files w !! name temp) ->
  name temp ∈ handles w ->
  finally_block ext temp w
  = match io_unlink ext (log w) (name temp) with
    | Some e => (Raise e, record (EvUnlinkFailed (name temp) e) w)
    | None =>
        (Return tt,
         record (EvUnlink (name temp))
           (set_files (delete (name temp) (files w)) w))
    end.
Proof.
  intros [x Hx] Hopen.
  unfold finally_block, mbind, Py_bind, bind, os_path_exists, os_unlink.
  rewrite bool_decide_eq_true_2 by eauto. rewrite Hx.
  by rewrite bool_decide_eq_true_2.
Qed.

(** The [try] block touches no file but the temporary one, which it
    leaves on disk; the file is still held open afterwards only when the
    write raised. *)
Lemma try_block_path (temp : TempFile) (audio : list Byte.byte) (w : World) :
  is_Some (files w !! name temp) ->
  exists evs,
    try_path (name temp) (model w) evs
      (try_block ext temp audio w).1 (model (try_block ext temp audio w).2)
    /\ log (try_block ext temp audio w).2 = evs ++ log w
    /\ is_Some (files (try_block ext temp audio w).2 !! name temp)
    /\ delete (name temp) (files (try_block ext temp audio w).2)
       = delete (name temp) (files w)
    /\ (name temp ∈ handles (try_block ext temp audio w).2 ->
        exists e,
          evs = [EvWrite (name temp) (Some e)]
          /\ (try_block ext temp audio w).1 = Raise e
          /\ files (try_block ext temp audio w).2 = files w
          /\ model (try_block ext temp audio w).2 = model w).
Proof.
  intros Hfile. destruct temp as [p]. simpl in *.
  destruct (try_block ext {| name := p |} audio w) as [r w'] eqn:Hrun. simpl.
  unfold try_block, mbind, Py_bind, bind, write, close, model_transcribe in Hrun.
  unfold set_files, set_handles, record in Hrun. simpl in Hrun.
  assert (is_Some (alter (fun old => old ++ audio) p (files w) !! p)) as Hkept.
  { apply lookup_alter_is_Some. exact Hfile. }
  assert (p ∉ handles w ∖ {[p]}) as Hclosed.
  { intros [_ Hn]%elem_of_difference. apply Hn. by apply elem_of_singleton. }
  destruct (io_write ext (log w) p audio) as [e|] eqn:Hw; simpl in Hrun.
  { injection Hrun as <- <-. exists [EvWrite p (Some e)]. simpl.
    repeat split; [constructor|done|]. intros _. by exists e. }
  destruct (io_close ext (EvWrite p None :: log w) p) as [e|] eqn:Hc; simpl in Hrun.
  { injection Hrun as <- <-. exists [EvClose p (Some e); EvWrite p None]. simpl.
    rewrite delete_alter_eq. by repeat split; [constructor|..]. }
  match type of Hrun with context [get_model ext ?w1] =>
    destruct (get_model_path w1) as (evs & Hpath & Hlog & Hfiles);
    pose proof (get_model_handles w1) as Hhandles;
    destruct (get_model ext w1) as [rm wm] eqn:Hgm
  end.
  simpl in Hpath, Hlog, Hfiles, Hhandles.
  destruct rm as [m|e].
  2:{ injection Hrun as <- <-.
      exists (evs ++ [EvClose p None; EvWrite p None]).
      rewrite Hlog, Hfiles, Hhandles, delete_alter_eq, <- app_assoc.
      by repeat split; [constructor|..]. }
  destruct (transcribe ext (log wm) m p (files wm !! p) "translate" false)
    as [e|res] eqn:Ht; simpl in Hrun; injection Hrun as <- <-; simpl.
  - exists (EvTranscribe m p (inl e) :: evs ++ [EvClose p None; EvWrite p None]).
    simpl. rewrite Hlog, Hfiles, Hhandles, delete_alter_eq, <- app_assoc.
    by repeat split; [constructor|..].
  - exists (EvTranscribe m p (inr res) :: evs ++ [EvClose p None; EvWrite p None]).
    simpl. rewrite Hlog, Hfiles, Hhandles, delete_alter_eq, <- app_assoc.
    by repeat split; [constructor|..].
Qed.

(** Every run of the handler is one of the paths. *)
Lemma analyze_voice_path (file : UploadFile) (w : World) :
  exists evs,
    handler_path file (files w) (model w) evs
      (analyze_voice ext file w).1 (model (analyze_voice ext file w).2)
      (files (analyze_voice ext file w).2)
    /\ log (analyze_voice ext file w).2 = evs ++ log w.
Proof.
  destruct (analyze_voice ext file w) as [r w'] eqn:Hrun. simpl.
  rewrite analyze_voice_blocks in Hrun.
  unfold mbind, Py_bind, bind, read, NamedTemporaryFile in Hrun.
  destruct (body file) as [e|audio] eqn:Hbody; simpl in Hrun.
  { injection Hrun as <- <-. exists []. by split; [constructor|]. }
  destruct (tmp_stem ext (log w)) as [e|stem] eqn:Hstem; simpl in Hrun.
  { injection Hrun as <- <-. exists [EvMkstemp (inl e)].
    by split; [constructor|]. }
  destruct (files w !! (stem +:+ ".wav")) as [old|] eqn:Hfree; simpl in Hrun.
  { injection Hrun as <- <-. exists [EvMkstemp (inl (Exn "FileExistsError"))].
    by split; [constructor|]. }
  set (p := stem +:+ ".wav") in *.
  set (w1 := set_handles _ _) in Hrun.
  assert (is_Some (files w1 !! name {| name := p |})) as Hnew.
  { subst w1. simpl. rewrite lookup_insert_eq. eauto. }
  destruct (try_block_path {| name := p |} audio w1 Hnew)
    as (evs & Hpath & Hlog & Hkept & Hrest & Hopen).
  unfold try_finally in Hrun.
  destruct (try_block ext {| name := p |} audio w1) as [r1 w2].
  simpl in Hpath, Hlog, Hkept, Hrest, Hopen.
  assert (delete p (files w2) = files w) as Hgone.
  { rewrite Hrest. subst w1. simpl. by apply delete_insert_id. }
  clearbody w1.
  destruct (decide (p ∈ handles w2)) as [Hin|Hnot].
  - rewrite (finally_block_open {| name := p |} w2 Hkept Hin) in Hrun.
    destruct (Hopen Hin) as (e & -> & -> & Hsame & Hmodel). simpl in Hrun.
    destruct (io_unlink ext (log w2) p) as [e'|]; injection Hrun as <- <-; simpl.
    + exists [EvUnlinkFailed p e'; EvWrite p (Some e); EvMkstemp (inr p)].
      rewrite Hsame, Hmodel, Hlog. split; [by constructor|done].
    + exists (EvUnlink p :: [EvWrite p (Some e)] ++ [EvMkstemp (inr p)]).
      rewrite Hgone, Hlog. split; [by constructor|done].
  - rewrite (finally_block_closed {| name := p |} w2 Hkept Hnot) in Hrun.
    injection Hrun as <- <-. simpl.
    exists (EvUnlink p :: evs ++ [EvMkstemp (inr p)]).
    rewrite Hgone, Hlog. split; [by constructor|].
    simpl. by rewrite <- app_assoc.
Qed.

Lemma analyze_voice_events (file : UploadFile) (w : World) :
  handler_path file (files w) (model w) (events_of (analyze_voice ext file) w)
    (analyze_voice ext file w).1 (model (analyze_voice ext file w).2)
    (files (analyze_voice ext file w).2).
Proof.
  destruct (analyze_voice_path file w) as (evs & Hpath & Hlog).
  by rewrite (events_of_app _ _ _ Hlog).
Qed.

(** ** Reading a path *)

(** Membership in the explicit event lists of a path. *)
Ltac in_path H :=
  simpl in H; rewrite ?in_app_iff in H; simpl in H;
  intuition (try discriminate; simplify_eq; eauto).

Lemma load_path_events g evs r g' :
  load_path g evs r g' ->
  forall ev, In ev evs -> exists nm a, ev = EvLoadModel nm a /\ of_sum a = r.
Proof. destruct 1; intros ev Hin; in_path Hin. Qed.










End HandlerFacts.

Example ex_run_calm :
  (analyze_voice (Examples.calm " please help me now") Examples.upload (initial_world ∅)).1
  = Return {| unsafe := true; english_text := "please help me now"; trigger := "VOICE_HELP" |}.
Proof. vm_compute. reflexivity. Qed.

Example ex_run_weather :
  (analyze_voice (Examples.calm "the weather is nice today") Examples.upload (initial_world ∅)).1
  = Return {| unsafe := false; english_text := "the weather is nice today"; trigger := "NONE" |}.
Proof. vm_compute. reflexivity. Qed.

Example ex_run_stormy :
  analyze_voice Examples.stormy Examples.upload (initial_world ∅)
  = (Raise (Exn "RuntimeError"),
     {| model := None;
        files := ∅;
        handles := ∅;
        log := [EvUnlink "/tmp/tmpk3v9x2ab.wav";
                EvLoadModel "small" (inl (Exn "RuntimeError"));
                EvClose "/tmp/tmpk3v9x2ab.wav" None;
                EvWrite "/tmp/tmpk3v9x2ab.wav" None;
                EvMkstemp (inr "/tmp/tmpk3v9x2ab.wav")] |}).
Proof. vm_compute. reflexivity. Qed.

(** ** The global [model] along a sequential execution *)

Section Sequential.
Import Paths.
Variable ext : Externals.

Lemma load_calls_app (l1 l2 : list event) :
  load_calls (l1 ++ l2) = (load_calls l1 + load_calls l2)%nat.
Proof. induction l1 as [|[] l1 IH]; simpl; by rewrite ?IH. Qed.

Lemma load_path_keeps g evs r g' : load_path g evs r g' -> keeps_model g evs g'.
Proof. destruct 1; subst; split; simpl; try done; by intros ? [= ->]. Qed.

Lemma keeps_model_app g evs g' l1 l2 :
  keeps_model g evs g' ->
  load_calls l1 = 0%nat -> load_calls l2 = 0%nat ->
  loads l1 = 0%nat -> loads l2 = 0%nat ->
  keeps_model g (l1 ++ evs ++ l2) g'.
Proof.
  intros [Hset Hnum] H1 H2 H3 H4. split.
  - intros m Hm. destruct (Hset m Hm) as [-> Hc].
    rewrite !load_calls_app. split; [done | lia].
  - rewrite !loads_app. lia.
Qed.

Lemma try_path_keeps p g evs r g' : try_path p g evs r g' -> keeps_model g evs g'.
Proof.
  destruct 1 as [| |evs ? ? Hl|evs ? ? ? Hl|evs ? ? ? Hl];
    try (apply load_path_keeps in Hl;
         first [ by apply (keeps_model_app _ _ _ [] _ Hl)
               | by apply (keeps_model_app _ _ _ [_] _ Hl) ]);
    split; simpl; try done; by intros ? ->.
Qed.

Lemma handler_path_keeps file fs g evs r g' fs' :
  handler_path file fs g evs r g' fs' -> keeps_model g evs g'.
Proof.
  destruct 1 as [| |p evs r g' Hfree Htry|].
  - split; simpl; [by intros ? -> | done].
  - split; simpl; [by intros ? -> | done].
  - apply try_path_keeps in Htry. by apply (keeps_model_app _ _ _ [_] _ Htry).
  - split; simpl; [by intros ? -> | done].
Qed.

(** One operation of the process, seen from the global. *)
Lemma run_op_keeps (o : op) (w : World) :
  exists evs,
    log (run_op ext o w) = evs ++ log w
    /\ keeps_model (model w) evs (model (run_op ext o w)).
Proof.
  destruct o as [|file]; simpl.
  - destruct (get_model_path ext w) as (evs & Hpath & Hlog & _).
    exists evs. split; [done|]. by eapply load_path_keeps.
  - destruct (analyze_voice_path ext file w) as (evs & Hpath & Hlog).
    exists evs. split; [done|]. by eapply handler_path_keeps.
Qed.

Lemma run_ops_cons (o : op) (ops : list op) (w : World) :
  run_ops ext (o :: ops) w = run_ops ext ops (run_op ext o w).
Proof. reflexivity. Qed.

(** Once set, the global is never assigned again and no operation calls
    [load_model]. *)
Lemma run_ops_model_set (ops : list op) (w : World) (m : Model) :
  model w = Some m ->
  model (run_ops ext ops w) = Some m
  /\ load_calls (log (run_ops ext ops w)) = load_calls (log w).
Proof.
  revert w. induction ops as [|o ops IH]; intros w Hm; [done|].
  rewrite run_ops_cons.
  destruct (run_op_keeps o w) as (evs & Hlog & [Hset _]).
  destruct (Hset m Hm) as [Hm' Hcalls].
  destruct (IH _ Hm') as [-> ->].
  split; [done|]. rewrite Hlog, load_calls_app. lia.
Qed.

(** Along an execution the log holds one successful load when the global
    is set and none when it is not. *)
Lemma run_ops_loads (ops : list op) (w : World) :
  loads (log w) = loaded (model w) ->
  loads (log (run_ops ext ops w)) = loaded (model (run_ops ext ops w)).
Proof.
  revert w. induction ops as [|o ops IH]; intros w Hw; [done|].
  rewrite run_ops_cons. apply IH.
  destruct (run_op_keeps o w) as (evs & Hlog & [_ Hnum]).
  rewrite Hlog, loads_app. lia.
Qed.

End Sequential.

(** ** The claims about the handler *)

Section HandlerClaims.
Variable ext : Externals.


(** C5, at the run the claim fails on.  On a Windows host with a full
    disk the write raises inside the [try] block, so [temp.close()] is not
    reached and the [finally] block unlinks a file that is still open; the
    unlink raises.  The temporary file, which was not there before the
    request, is on disk when the handler is done, and the exception that
    propagates is the one of the unlink and not the one of the write. *)
Theorem C5_open_file_survives_failed_write :
  In (EvWrite Examples.tmp (Some (Exn "OSError")))
     (events_of (analyze_voice Examples.windows_disk_full Examples.upload)
                (initial_world ∅))
  /\ files (initial_world ∅) !! Examples.tmp = None
  /\ files (analyze_voice Examples.windows_disk_full Examples.upload
              (initial_world ∅)).2 !! Examples.tmp = Some []
  /\ (analyze_voice Examples.windows_disk_full Examples.upload
        (initial_world ∅)).1 = Raise (Exn "PermissionError")
  /\ events_of (analyze_voice Examples.windows_disk_full Examples.upload)
               (initial_world ∅)
     = [EvUnlinkFailed Examples.tmp (Exn "PermissionError");
        EvWrite Examples.tmp (Some (Exn "OSError"));
        EvMkstemp (inr Examples.tmp)].
Proof.
  assert (events_of (analyze_voice Examples.windows_disk_full Examples.upload)
                    (initial_world ∅)
          = [EvUnlinkFailed Examples.tmp (Exn "PermissionError");
             EvWrite Examples.tmp (Some (Exn "OSError"));
             EvMkstemp (inr Examples.tmp)]) as Hevs
    by (vm_compute; reflexivity).
  rewrite Hevs. split; [right; by left|].
  repeat split; vm_compute; reflexivity.
Qed.

(** C9: under sequential execution the model is loaded at most once.  A
    [get_model] call that finds the global unset and whose load returns [m]
    makes that one [load_model] call, assigns [m] to the global and returns
    it; a call that finds the global set to [m] returns [m] and changes
    nothing; once the global is set to [m], no sequence of operations
    assigns it again or calls [load_model]; and in every execution from the
    start of the process at most one [load_model] call has returned. *)
Theorem C9_model_loaded_at_most_once :
  (forall w m,
      model w = None -> load_model ext (log w) "small" = inr m ->
      (get_model ext w).1 = Return m
      /\ model (get_model ext w).2 = Some m
      /\ events_of (get_model ext) w = [EvLoadModel "small" (inr m)])
  /\ (forall w m, model w = Some m -> get_model ext w = (Return m, w))
  /\ (forall ops w m,
        model w = Some m ->
        model (run_ops ext ops w) = Some m
        /\ load_calls (log (run_ops ext ops w)) = load_calls (log w))
  /\ (forall ops fs, (loads (log (run_ops ext ops (initial_world fs))) <= 1)%nat).
Proof.
  split; [|split; [|split]].
  - intros w m Hnone Hload.
    pose proof (get_model_first ext w m Hnone Hload) as Hrun.
    rewrite (events_of_app _ _ [EvLoadModel "small" (inr m)]); by rewrite Hrun.
  - apply get_model_cached.
  - apply run_ops_model_set.
  - intros ops fs. rewrite run_ops_loads by done.
    by destruct (model _); simpl; lia.
Qed.

End HandlerClaims.


Lemma C9_witness :
  model Examples.warm = Some (ModelObj 0)
  /\ get_model Examples.stormy Examples.warm = (Return (ModelObj 0), Examples.warm)
  /\ (loads (log (run_ops Examples.stormy
                    [CallGetModel; CallAnalyzeVoice Examples.upload; CallGetModel]
                    (initial_world ∅))) <= 1)%nat.
Proof.
  assert (model Examples.warm = Some (ModelObj 0)) as Hset by (vm_compute; reflexivity).
  destruct (C9_model_loaded_at_most_once Examples.stormy)
    as (_ & Hcached & _ & Honce).
  split; [exact Hset|]. split; [exact (Hcached _ _ Hset) | apply Honce].
Defined.

(** * Further properties of the classifier *)

Module StripFacts.
Import PyStrFacts.

Lemma length_app (a b : string) :
  String.length (a +:+ b) = (String.length a + String.length b)%nat.
Proof. induction a as [|c a IH]; [done|]. rewrite app_cons. simpl. by rewrite IH. Qed.

Lemma contains_length (s p : string) :
  contains s p = true -> (String.length p <= String.length s)%nat.
Proof. intros (a & b & ->)%contains_spec. rewrite !length_app. lia. Qed.

Lemma contains_trans (s p q : string) :
  contains s p = true -> contains p q = true -> contains s q = true.
Proof.
  rewrite !contains_spec. intros (a & b & ->) (c & d & ->).
  exists (a +:+ c), (d +:+ b). by rewrite !app_assoc.
Qed.

(** Whitespace is neither produced nor removed by [lower]. *)
Lemma isspace_lower_char (c : ascii) : isspace (lower_char c) = isspace c.
Proof. destruct c as [[] [] [] [] [] [] [] []]; reflexivity. Qed.

Lemma lower_lstrip (s : string) : lower (lstrip s) = lstrip (lower s).
Proof.
  induction s as [|c s IH]; [done|]. simpl. rewrite isspace_lower_char.
  by destruct (isspace c).
Qed.

Lemma lower_rstrip (s : string) : lower (rstrip s) = rstrip (lower s).
Proof.
  induction s as [|c s IH]; [done|]. simpl. rewrite <- IH, isspace_lower_char.
  destruct (rstrip s); simpl; [by destruct (isspace c) | done].
Qed.

Lemma lower_strip (s : string) : lower (strip s) = strip (lower s).
Proof. unfold strip. by rewrite lower_rstrip, lower_lstrip. Qed.

(** Stripping a string keeps every occurrence of a string that neither
    starts nor ends with whitespace. *)
Lemma contains_lstrip (s p : string) :
  starts_nonspace p = true -> contains (lstrip s) p = contains s p.
Proof.
  intros Hp. induction s as [|c s IH]; [done|]. simpl lstrip.
  destruct (isspace c) eqn:Hc; [|done].
  rewrite IH. cbn [contains].
  destruct p as [|a p]; [done|]. simpl in Hp. simpl.
  destruct (Ascii.eqb_spec a c) as [->|]; [|done].
  by rewrite Hc in Hp.
Qed.

Lemma startswith_rstrip (s p : string) :
  ends_nonspace p = true -> startswith (rstrip s) p = startswith s p.
Proof.
  revert p. induction s as [|c s IH]; intros [|a p] Hp; try done.
  assert (startswith (String c s) (String a p)
          = Ascii.eqb a c && startswith s p) as -> by done.
  destruct p as [|b p].
  - simpl in Hp. simpl.
    destruct (rstrip s); simpl; [|by destruct (Ascii.eqb a c)].
    destruct (isspace c) eqn:Hc; simpl; [|by destruct (Ascii.eqb a c)].
    destruct (Ascii.eqb_spec a c) as [->|]; [|done]. by rewrite Hc in Hp.
  - assert (ends_nonspace (String b p) = true) as Hp' by exact Hp.
    rewrite <- (IH _ Hp'). simpl.
    destruct (rstrip s) eqn:Hr; simpl.
    + destruct (isspace c); simpl; by rewrite ?andb_false_r.
    + done.
Qed.

Lemma contains_rstrip (s p : string) :
  ends_nonspace p = true -> contains (rstrip s) p = contains s p.
Proof.
  intros Hp. induction s as [|c s IH]; [done|].
  cbn [contains]. rewrite <- (startswith_rstrip (String c s) p Hp), <- IH.
  simpl. destruct (rstrip s) eqn:Hr.
  - destruct (isspace c); by destruct p.
  - done.
Qed.

Lemma contains_strip (s p : string) :
  starts_nonspace p = true -> ends_nonspace p = true ->
  contains (strip s) p = contains s p.
Proof. intros H1 H2. unfold strip. by rewrite contains_rstrip, contains_lstrip. Qed.

(** [strip] leaves nothing to strip. *)
Lemma lstrip_starts (s : string) :
  lstrip s = EmptyString \/ starts_nonspace (lstrip s) = true.
Proof.
  induction s as [|c s IH]; [by left|]. simpl.
  destruct (isspace c) eqn:Hc; [done|]. right. simpl. by rewrite Hc.
Qed.

Lemma rstrip_cons (c : ascii) (s : string) :
  rstrip (String c s)
  = match rstrip s with
    | EmptyString => if isspace c then EmptyString else String c EmptyString
    | r => String c r
    end.
Proof. reflexivity. Qed.

Lemma rstrip_idem (s : string) : rstrip (rstrip s) = rstrip s.
Proof.
  induction s as [|c s IH]; [done|]. rewrite (rstrip_cons c s).
  destruct (rstrip s) as [|d r] eqn:Hr.
  - destruct (isspace c) eqn:Hc; [done|]. simpl. by rewrite Hc.
  - by rewrite rstrip_cons, IH.
Qed.

Lemma rstrip_starts (s : string) :
  starts_nonspace s = true -> starts_nonspace (rstrip s) = true.
Proof.
  destruct s as [|c s]; [done|]. simpl. intros Hc.
  destruct (rstrip s); [|done]. apply negb_true_iff in Hc.
  rewrite Hc. simpl. by rewrite Hc.
Qed.

Lemma lstrip_fix (s : string) : starts_nonspace s = true -> lstrip s = s.
Proof. destruct s as [|c s]; [done|]. simpl. by intros ->%negb_true_iff. Qed.

Lemma strip_idem (s : string) : strip (strip s) = strip s.
Proof.
  unfold strip. destruct (lstrip_starts s) as [-> | Hs]; [done|].
  by rewrite (lstrip_fix _ (rstrip_starts _ Hs)), rstrip_idem.
Qed.

Lemma is_unsafe_strip (t : string) : is_unsafe (strip t) = is_unsafe t.
Proof.
  unfold is_unsafe. cbn zeta. rewrite lower_strip.
  unfold distress_phrases. cbn [existsb].
  by rewrite !contains_strip by reflexivity.
Qed.

End StripFacts.

Section ClassifierExtras.
Import PyStrFacts StripFacts.

(** X1: every entry of the list that has no capital letter flags any text
    in which it occurs, whatever the letter case of the occurrence: if [h]
    equals such an entry up to letter case, [is_unsafe (a +:+ h +:+ b)] is
    true for all [a] and [b]. *)
Theorem X1_lowercase_entries_match_any_casing (p h a b : string) :
  In p distress_phrases ->
  is_lowered p = true ->
  caseless_eq h p = true ->
  is_unsafe (a +:+ h +:+ b) = true.
Proof.
  intros Hp Hlow Hcase%caseless_eq_spec.
  apply is_unsafe_true. exists p. split; [exact Hp|].
  rewrite !lower_app, Hcase, (is_lowered_fix p Hlow).
  apply contains_spec. by exists (lower a), (lower b).
Qed.

Lemma X1_witness :
  In "call the police" distress_phrases
  /\ is_lowered "call the police" = true
  /\ caseless_eq "Call The POLICE" "call the police" = true
  /\ is_unsafe ("Somebody " +:+ "Call The POLICE" +:+ " now!") = true.
Proof.
  assert (In "call the police" distress_phrases) as Hin by (vm_compute; tauto).
  split; [exact Hin|]. split; [reflexivity|]. split; [reflexivity|].
  apply (X1_lowercase_entries_match_any_casing "call the police" "Call The POLICE"
           "Somebody " " now!" Hin); reflexivity.
Defined.

(** X2: the entries "i need help" and "please help" are redundant beside
    "help".  For every string [s], [is_unsafe s] is the verdict of the
    classifier over the eight remaining lower-case entries; and none of
    these eight can be dropped, since each of them is flagged by itself
    and by no other of the eight. *)
Theorem X2_core_phrases_suffice (s : string) :
  is_unsafe s = is_unsafe_core s
  /\ Forall (fun p =>
              is_unsafe_core p = true
              /\ existsb (fun q => contains (lower p) q)
                   (filter (fun q => q ≠ p) core_phrases) = false)
       core_phrases.
Proof.
  split.
  - assert (contains (lower s) "Save" = false) as H1
      by (by apply not_lowered_absent).
    assert (contains (lower s) "Someone is chasing me" = false) as H2
      by (by apply not_lowered_absent).
    assert (contains (lower s) "help" = false ->
            contains (lower s) "i need help" = false
            /\ contains (lower s) "please help" = false) as Hhelp.
    { intros Hno. split.
      - destruct (contains (lower s) "i need help") eqn:Hc; [|done].
        by rewrite (contains_trans _ _ "help" Hc) in Hno.
      - destruct (contains (lower s) "please help") eqn:Hc; [|done].
        by rewrite (contains_trans _ _ "help" Hc) in Hno. }
    unfold is_unsafe, is_unsafe_core. cbn zeta.
    change core_phrases with
      ["help"; "save me"; "i am in danger"; "someone is attacking me";
       "someone is following me"; "i am scared"; "call the police"; "emergency"].
    unfold distress_phrases. cbn [existsb].
    rewrite H1, H2.
    destruct (contains (lower s) "help") eqn:Hh; [done|].
    destruct (Hhelp eq_refl) as [-> ->].
    by rewrite !orb_false_r.
  - repeat constructor.
Qed.

(** X3: a text of fewer than four characters is never flagged. *)
Theorem X3_short_text_is_safe (s : string) :
  (String.length s < 4)%nat -> is_unsafe s = false.
Proof.
  intros Hlen. destruct (is_unsafe s) eqn:Hs; [|done].
  apply is_unsafe_true in Hs as (p & Hp & Hc).
  apply contains_length in Hc.
  assert (String.length (lower s) = String.length s) as Hl.
  { clear. induction s as [|c s IH]; [done|]. simpl. by rewrite IH. }
  assert (4 <= String.length p)%nat; [|lia].
  clear -Hp. unfold distress_phrases in Hp. simpl in Hp.
  repeat (destruct Hp as [<- | Hp]; [simpl; lia |]). destruct Hp.
Qed.

Lemma X3_witness : (String.length "SOS" < 4)%nat /\ is_unsafe "SOS" = false.
Proof.
  assert (String.length "SOS" < 4)%nat as Hlen by (simpl; lia).
  split; [exact Hlen | exact (X3_short_text_is_safe "SOS" Hlen)].
Defined.

(** X4: trimming a text does not change its verdict: for every string
    [t], [is_unsafe (strip t)] is [is_unsafe t]. *)
Theorem X4_strip_keeps_verdict (t : string) :
  is_unsafe (strip t) = is_unsafe t.
Proof. apply is_unsafe_strip. Qed.

End ClassifierExtras.

(** * Further properties of the handler *)

Section HandlerExtraFacts.
Import Paths StripFacts.
Variable ext : Externals.

(** The calls of a run that reaches transcription, newest first: unlink,
    transcribe, the load if there was one, close, write, create. *)
Definition transcribing (p : string) (m : Model) (a : exn + TranscriptionResult)
  (levs : list event) : list event :=
  EvUnlink p :: EvTranscribe m p a
  :: levs ++ [EvClose p None; EvWrite p None; EvMkstemp (inr p)].

Lemma load_path_returned g levs m g' :
  load_path g levs (Return m) g' ->
  g' = Some m
  /\ ((g = Some m /\ levs = [])
      \/ (g = None /\ levs = [EvLoadModel "small" (inr m)])).
Proof. inversion 1; subst; split; auto. Qed.



Lemma handler_path_returned file fs g evs resp g' fs' :
  handler_path file fs g evs (Return resp) g' fs' ->
  fs' = fs /\
  exists p m res levs,
    evs = transcribing p m (inr res) levs
    /\ load_path g levs (Return m) g'
    /\ resp = {| unsafe := is_unsafe (strip (text res));
                 english_text := strip (text res);
                 trigger := if is_unsafe (strip (text res))
                            then "VOICE_HELP" else "NONE" |}.
Proof.
  inversion 1 as [| |p evs' r' g'' Hfree Htry|]; subst.
  inversion Htry as [| | | |levs m res g3 Hl]; subst.
  split; [done|].
  exists p, m, res, levs. split; [|done].
  unfold transcribing. simpl. by rewrite <- app_assoc.
Qed.

Lemma load_path_load_event g levs r g' nm a :
  load_path g levs r g' ->
  In (EvLoadModel nm a) levs ->
  nm = "small" /\ g = None /\ levs = [EvLoadModel nm a]
  /\ r = of_sum a
  /\ g' = match a with inr m => Some m | inl _ => None end.
Proof.
  destruct 1; simpl; intros Hin; [done|..];
    destruct Hin as [[= <- <-]|[]]; by subst.
Qed.

Lemma try_path_load_event p g evs r g' nm a :
  try_path p g evs r g' ->
  In (EvLoadModel nm a) evs ->
  nm = "small" /\ g = None
  /\ g' = match a with inr m => Some m | inl _ => None end.
Proof.
  destruct 1 as [| |levs ? ? Hl|levs ? ? ? Hl|levs ? ? ? Hl]; intros Hin;
    simpl in Hin; rewrite ?in_app_iff in Hin; simpl in Hin.
  - by destruct Hin as [|[]].
  - by destruct Hin as [|[|[]]].
  - destruct Hin as [Hin|[|[|[]]]]; try done.
    by destruct (load_path_load_event _ _ _ _ _ _ Hl Hin) as (? & ? & _ & _ & ?).
  - destruct Hin as [|[Hin|[|[|[]]]]]; try done.
    by destruct (load_path_load_event _ _ _ _ _ _ Hl Hin) as (? & ? & _ & _ & ?).
  - destruct Hin as [|[Hin|[|[|[]]]]]; try done.
    by destruct (load_path_load_event _ _ _ _ _ _ Hl Hin) as (? & ? & _ & _ & ?).
Qed.

Lemma handler_path_load_event file fs g evs r g' fs' nm a :
  handler_path file fs g evs r g' fs' ->
  In (EvLoadModel nm a) evs ->
  nm = "small" /\ g = None
  /\ g' = match a with inr m => Some m | inl _ => None end.
Proof.
  destruct 1 as [| |p evs r g' Hfree Htry|]; intros Hin.
  - destruct Hin.
  - by destruct Hin as [|[]].
  - simpl in Hin. rewrite in_app_iff in Hin. simpl in Hin.
    destruct Hin as [|[Hin|[|[]]]]; try done.
    by eapply try_path_load_event.
  - by destruct Hin as [|[|[|[]]]].
Qed.





Lemma log_split (evs pre base : list event) :
  pre ++ base = evs ++ base -> evs = pre.
Proof. intros H. symmetry. by apply (app_inv_tail base). Qed.

(** What the [try] block hands to [transcribe]: the bytes it wrote to
    the temporary file, the task "translate" and [fp16=False]. *)
Lemma try_block_transcribe_input temp audio w old evs m q a :
  files w !! name temp = Some old ->
  log (try_block ext temp audio w).2 = evs ++ log w ->
  In (EvTranscribe m q a) evs ->
  exists l, a = transcribe ext l m q (Some (old ++ audio)) "translate" false.
Proof.
  intros Hold Hlog Hin. destruct temp as [p]. simpl in *.
  destruct (try_block ext {| name := p |} audio w) as [r w'] eqn:Hrun.
  simpl in Hlog.
  unfold try_block, mbind, Py_bind, bind, write, close, model_transcribe in Hrun.
  unfold set_files, record in Hrun. simpl in Hrun.
  destruct (io_write ext (log w) p audio) as [e|] eqn:Hw; simpl in Hrun.
  { injection Hrun as <- <-. simpl in Hlog.
    apply (log_split evs [_]) in Hlog as ->. by destruct Hin as [|[]]. }
  destruct (io_close ext (EvWrite p None :: log w) p) as [e|] eqn:Hc; simpl in Hrun.
  { injection Hrun as <- <-. simpl in Hlog.
    apply (log_split evs [_; _]) in Hlog as ->. by destruct Hin as [|[|[]]]. }
  match type of Hrun with context [get_model ext ?w1] =>
    destruct (get_model_path ext w1) as (levs & Hpath & Hl & Hfiles);
    destruct (get_model ext w1) as [rm wm] eqn:Hgm
  end.
  simpl in Hpath, Hl, Hfiles.
  pose proof (load_path_events _ _ _ _ Hpath) as Hlevs.
  assert (files wm !! p = Some (old ++ audio)) as Hcontent.
  { by rewrite Hfiles, lookup_alter_eq, Hold. }
  destruct rm as [m'|e].
  { rewrite Hcontent in Hrun.
    assert (exists a', evs = EvTranscribe m' p a' :: levs ++ [EvClose p None; EvWrite p None]
              /\ a' = transcribe ext (log wm) m' p (Some (old ++ audio)) "translate" false)
      as (a' & -> & Ha').
    { exists (transcribe ext (log wm) m' p (Some (old ++ audio)) "translate" false).
      split; [|done]. apply (log_split _ _ (log w)). rewrite <- Hlog.
      destruct (transcribe ext (log wm) m' p (Some (old ++ audio)) "translate" false);
        simpl in Hrun; injection Hrun as <- <-; simpl; rewrite Hl;
        by rewrite <- app_assoc. }
    simpl in Hin. rewrite in_app_iff in Hin. simpl in Hin.
    destruct Hin as [[= <- <- <-]|[Hin|[|[|[]]]]]; try done.
    - by exists (log wm).
    - by destruct (Hlevs _ Hin) as (? & ? & ? & _). }
  injection Hrun as <- <-.
  assert (evs = levs ++ [EvClose p None; EvWrite p None]) as ->.
  { apply (log_split _ _ (log w)). rewrite <- Hlog, Hl. by rewrite <- app_assoc. }
  apply in_app_iff in Hin as [Hin|[|[|[]]]]; try done.
  by destruct (Hlevs _ Hin) as (? & ? & ? & _).
Qed.

(** The handler hands the uploaded bytes to [transcribe]. *)
Lemma analyze_voice_transcribe_input file w audio m q a :
  body file = inr audio ->
  In (EvTranscribe m q a) (events_of (analyze_voice ext file) w) ->
  exists l, a = transcribe ext l m q (Some audio) "translate" false.
Proof.
  intros Hbody.
  assert (exists evs, log (analyze_voice ext file w).2 = evs ++ log w
            /\ forall m q a, In (EvTranscribe m q a) evs ->
                 exists l, a = transcribe ext l m q (Some audio) "translate" false)
    as (evs & Hlog & Hall);
    [|rewrite (events_of_app _ _ _ Hlog); apply Hall].
  destruct (analyze_voice ext file w) as [r w'] eqn:Hrun. simpl.
  rewrite analyze_voice_blocks in Hrun.
  unfold mbind, Py_bind, bind, read, NamedTemporaryFile in Hrun.
  rewrite Hbody in Hrun. simpl in Hrun.
  destruct (tmp_stem ext (log w)) as [e|stem] eqn:Hstem; simpl in Hrun.
  { injection Hrun as <- <-. exists [EvMkstemp (inl e)].
    split; [done|]. by intros ? ? ? [|[]]. }
  destruct (files w !! (stem +:+ ".wav")) as [old|] eqn:Hfree; simpl in Hrun.
  { injection Hrun as <- <-. exists [EvMkstemp (inl (Exn "FileExistsError"))].
    split; [done|]. by intros ? ? ? [|[]]. }
  set (p := stem +:+ ".wav") in *.
  set (w1 := set_handles _ _) in Hrun.
  assert (files w1 !! name {| name := p |} = Some []) as Hnew.
  { subst w1. simpl. by rewrite lookup_insert_eq. }
  destruct (try_block_path ext {| name := p |} audio w1 (mk_is_Some _ _ Hnew))
    as (evs & Hpath & Hlog & Hkept & Hrest & _).
  pose proof (fun m q a =>
                try_block_transcribe_input {| name := p |} audio w1 [] evs m q a
                  Hnew Hlog) as Hin.
  assert (log w1 = EvMkstemp (inr p) :: log w) as Hlog1 by done.
  unfold try_finally in Hrun.
  destruct (try_block ext {| name := p |} audio w1) as [r1 w2].
  clearbody w1. simpl in Hlog, Hkept. rewrite Hlog1 in Hlog.
  assert (exists last, log w' = (last :: evs ++ [EvMkstemp (inr p)]) ++ log w
            /\ forall m q a, last <> EvTranscribe m q a) as (last & Hlog' & Hlast).
  { destruct (decide (p ∈ handles w2)) as [Hopen|Hnot].
    - rewrite (finally_block_open ext {| name := p |} w2 Hkept Hopen) in Hrun.
      simpl in Hrun.
      destruct (io_unlink ext (log w2) p) as [e'|]; injection Hrun as <- <-;
        eexists; (split; [simpl; rewrite Hlog, <- app_assoc; reflexivity | done]).
    - rewrite (finally_block_closed ext {| name := p |} w2 Hkept Hnot) in Hrun.
      injection Hrun as <- <-.
      eexists; (split; [simpl; rewrite Hlog, <- app_assoc; reflexivity | done]). }
  exists (last :: evs ++ [EvMkstemp (inr p)]). split; [done|].
  intros m' q' a' Hev. simpl in Hev. rewrite in_app_iff in Hev. simpl in Hev.
  destruct Hev as [Heq|[Hev|[|[]]]]; try done.
  - by destruct (Hlast m' q' a').
  - by eapply Hin.
Qed.

End HandlerExtraFacts.

Section HandlerExtras.
Import Paths StripFacts.
Variable ext : Externals.

(** X5: every response the handler returns is consistent with itself: its
    [unsafe] is the classifier's verdict on the [english_text] it carries,
    that text has no leading or trailing whitespace left to strip, and its
    [trigger] is one of "VOICE_HELP" and "NONE". *)
Theorem X5_response_is_consistent
    (file : UploadFile) (w : World) (resp : AnalysisResponse) :
  (analyze_voice ext file w).1 = Return resp ->
  unsafe resp = is_unsafe (english_text resp)
  /\ strip (english_text resp) = english_text resp
  /\ (trigger resp = "VOICE_HELP" \/ trigger resp = "NONE").
Proof.
  intros Hret. pose proof (analyze_voice_events ext file w) as Hpath.
  rewrite Hret in Hpath.
  destruct (handler_path_returned _ _ _ _ _ _ _ Hpath)
    as (_ & p & m & res & levs & _ & _ & ->).
  simpl. split; [done|]. split; [apply strip_idem|].
  destruct (is_unsafe (strip (text res))); auto.
Qed.

(** X6: the handler returns a response only when a transcription call
    returned: the last two calls of such a run are that transcription and
    the unlink of the file it read, the response is built from its result,
    and the run made no other transcription call. *)
Theorem X6_response_needs_transcription
    (file : UploadFile) (w : World) (resp : AnalysisResponse) :
  (analyze_voice ext file w).1 = Return resp ->
  exists m p res rest,
    events_of (analyze_voice ext file) w
    = EvUnlink p :: EvTranscribe m p (inr res) :: rest
    /\ resp = {| unsafe := is_unsafe (strip (text res));
                english_text := strip (text res);
                trigger := if is_unsafe (strip (text res))
                           then "VOICE_HELP" else "NONE" |}
    /\ forall m' p' a', ~ In (EvTranscribe m' p' a') rest.
Proof.
  intros Hret. pose proof (analyze_voice_events ext file w) as Hpath.
  rewrite Hret in Hpath.
  destruct (handler_path_returned _ _ _ _ _ _ _ Hpath)
    as (_ & p & m & res & levs & -> & Hl & ->).
  exists m, p, res, (levs ++ [EvClose p None; EvWrite p None; EvMkstemp (inr p)]).
  split; [done|]. split; [done|].
  intros m' p' a' [Hin|[|[|[|[]]]]]%in_app_iff; try done.
  by destruct (load_path_events _ _ _ _ Hl _ Hin) as (? & ? & ? & _).
Qed.


(** X8: what the handler hands to whisper is the upload: every
    transcription call of a request reads the bytes that [file.read()]
    gave, with task "translate" and [fp16=False]. *)
Theorem X8_transcribes_the_upload
    (file : UploadFile) (w : World) (audio : list Byte.byte)
    (m : Model) (p : string) (a : exn + TranscriptionResult) :
  body file = inr audio ->
  In (EvTranscribe m p a) (events_of (analyze_voice ext file) w) ->
  exists l, a = transcribe ext l m p (Some audio) "translate" false.
Proof. apply analyze_voice_transcribe_input. Qed.

(** X9: a request calls [load_model] only when the global is unset and
    only for the model "small"; the global afterwards is the model that
    call returned, also when the request then fails, and it is still unset
    when the call raised. *)
Theorem X9_load_outcome_is_the_global
    (file : UploadFile) (w : World) (nm : string) (a : exn + Model) :
  In (EvLoadModel nm a) (events_of (analyze_voice ext file) w) ->
  nm = "small"
  /\ model w = None
  /\ model (analyze_voice ext file w).2
     = match a with inr m => Some m | inl _ => None end.
Proof.
  intros Hin. pose proof (analyze_voice_events ext file w) as Hpath.
  by eapply handler_path_load_event.
Qed.

(** X10: [get_model] is idempotent: when a call returns [m], a second
    call returns [m] as well and changes nothing, so it makes no call to
    whisper. *)
Theorem X10_get_model_idempotent (w : World) (m : Model) :
  (get_model ext w).1 = Return m ->
  get_model ext (get_model ext w).2 = (Return m, (get_model ext w).2).
Proof.
  intros Hret. destruct (get_model_path ext w) as (levs & Hpath & _).
  rewrite Hret in Hpath.
  destruct (load_path_returned _ _ _ _ Hpath) as [Hafter _].
  by apply get_model_cached.
Qed.



(** X13: once a request has returned a response, the model is cached, and
    nothing that runs afterwards calls [load_model] again. *)
Theorem X13_no_load_after_a_response
    (file : UploadFile) (w : World) (resp : AnalysisResponse) (ops : list op) :
  (analyze_voice ext file w).1 = Return resp ->
  exists m,
    model (analyze_voice ext file w).2 = Some m
    /\ model (run_ops ext ops (analyze_voice ext file w).2) = Some m
    /\ load_calls (log (run_ops ext ops (analyze_voice ext file w).2))
       = load_calls (log (analyze_voice ext file w).2).
Proof.
  intros Hret. pose proof (analyze_voice_events ext file w) as Hpath.
  rewrite Hret in Hpath.
  destruct (handler_path_returned _ _ _ _ _ _ _ Hpath)
    as (_ & p & m & res & levs & _ & Hl & _).
  destruct (load_path_returned _ _ _ _ Hl) as [Hafter _].
  exists m. split; [done|]. by apply run_ops_model_set.
Qed.



End HandlerExtras.

(** ** The further properties at the example worlds *)

Lemma X5_witness :
  (analyze_voice (Examples.calm " please help me now") Examples.upload
     (initial_world ∅)).1
  = Return {| unsafe := true;
              english_text := "please help me now";
              trigger := "VOICE_HELP" |}
  /\ true = is_unsafe "please help me now"
  /\ strip "please help me now" = "please help me now"
  /\ ("VOICE_HELP" = "VOICE_HELP" \/ "VOICE_HELP" = "NONE").
Proof.
  assert ((analyze_voice (Examples.calm " please help me now") Examples.upload
             (initial_world ∅)).1
          = Return {| unsafe := true;
                      english_text := "please help me now";
                      trigger := "VOICE_HELP" |}) as Hret
    by (vm_compute; reflexivity).
  split; [exact Hret|].
  exact (X5_response_is_consistent _ _ _ _ Hret).
Defined.

Lemma X6_witness :
  (analyze_voice (Examples.calm "the weather is nice today") Examples.upload
     (initial_world ∅)).1
  = Return {| unsafe := false;
              english_text := "the weather is nice today";
              trigger := "NONE" |}
  /\ exists m p res rest,
       events_of (analyze_voice (Examples.calm "the weather is nice today")
                    Examples.upload) (initial_world ∅)
       = EvUnlink p :: EvTranscribe m p (inr res) :: rest
       /\ {| unsafe := false;
             english_text := "the weather is nice today";
             trigger := "NONE" |}
          = {| unsafe := is_unsafe (strip (text res));
               english_text := strip (text res);
               trigger := if is_unsafe (strip (text res))
                          then "VOICE_HELP" else "NONE" |}
       /\ forall m' p' a', ~ In (EvTranscribe m' p' a') rest.
Proof.
  assert ((analyze_voice (Examples.calm "the weather is nice today") Examples.upload
             (initial_world ∅)).1
          = Return {| unsafe := false;
                      english_text := "the weather is nice today";
                      trigger := "NONE" |}) as Hret
    by (vm_compute; reflexivity).
  split; [exact Hret|].
  exact (X6_response_needs_transcription _ _ _ _ Hret).
Defined.


Lemma X8_witness :
  body Examples.upload = inr [Byte.x52; Byte.x49; Byte.x46; Byte.x46]
  /\ In (EvTranscribe (ModelObj 1) Examples.tmp (inr {| text := "help" |}))
        (events_of (analyze_voice Examples.picky Examples.upload) (initial_world ∅))
  /\ exists l,
       inr {| text := "help" |}
       = transcribe Examples.picky l (ModelObj 1) Examples.tmp
           (Some [Byte.x52; Byte.x49; Byte.x46; Byte.x46]) "translate" false.
Proof.
  assert (In (EvTranscribe (ModelObj 1) Examples.tmp (inr {| text := "help" |}))
             (events_of (analyze_voice Examples.picky Examples.upload)
                        (initial_world ∅))) as Hin.
  { vm_compute. right. left. reflexivity. }
  split; [reflexivity|]. split; [exact Hin|].
  exact (X8_transcribes_the_upload Examples.picky Examples.upload
           (initial_world ∅) [Byte.x52; Byte.x49; Byte.x46; Byte.x46]
           (ModelObj 1) Examples.tmp (inr {| text := "help" |}) eq_refl Hin).
Defined.

Lemma X9_witness :
  In (EvLoadModel "small" (inl (Exn "RuntimeError")))
     (events_of (analyze_voice Examples.stormy Examples.upload) (initial_world ∅))
  /\ model (analyze_voice Examples.stormy Examples.upload (initial_world ∅)).2 = None.
Proof.
  assert (In (EvLoadModel "small" (inl (Exn "RuntimeError")))
             (events_of (analyze_voice Examples.stormy Examples.upload)
                        (initial_world ∅))) as Hin.
  { vm_compute. right. left. reflexivity. }
  split; [exact Hin|].
  destruct (X9_load_outcome_is_the_global _ _ _ _ _ Hin) as (_ & _ & Hm).
  exact Hm.
Defined.

Lemma X10_witness :
  (get_model (Examples.calm "help") (initial_world ∅)).1 = Return (ModelObj 1)
  /\ get_model (Examples.calm "help")
       (get_model (Examples.calm "help") (initial_world ∅)).2
     = (Return (ModelObj 1), (get_model (Examples.calm "help") (initial_world ∅)).2).
Proof.
  assert ((get_model (Examples.calm "help") (initial_world ∅)).1
          = Return (ModelObj 1)) as Hret by reflexivity.
  split; [exact Hret | exact (X10_get_model_idempotent _ _ _ Hret)].
Defined.


Lemma X13_witness :
  (analyze_voice (Examples.calm "help") Examples.upload (initial_world ∅)).1
  = Return {| unsafe := true; english_text := "help"; trigger := "VOICE_HELP" |}
  /\ exists m,
       model (analyze_voice (Examples.calm "help") Examples.upload (initial_world ∅)).2
       = Some m
       /\ model (run_ops (Examples.calm "help")
                   [CallAnalyzeVoice Examples.upload; CallGetModel]
                   (analyze_voice (Examples.calm "help") Examples.upload
                      (initial_world ∅)).2)
          = Some m
       /\ load_calls (log (run_ops (Examples.calm "help")
                             [CallAnalyzeVoice Examples.upload; CallGetModel]
                             (analyze_voice (Examples.calm "help") Examples.upload
                                (initial_world ∅)).2))
          = load_calls (log (analyze_voice (Examples.calm "help") Examples.upload
                               (initial_world ∅)).2).
Proof.
  assert ((analyze_voice (Examples.calm "help") Examples.upload (initial_world ∅)).1
          = Return {| unsafe := true; english_text := "help"; trigger := "VOICE_HELP" |})
    as Hret by (vm_compute; reflexivity).
  split; [exact Hret|].
  exact (X13_no_load_after_a_response _ _ _ _
           [CallAnalyzeVoice Examples.upload; CallGetModel] Hret).
Defined.




Example ex_run_posix_disk_full :
  (analyze_voice Examples.posix_disk_full Examples.upload (initial_world ∅)).1
  = Raise (Exn "OSError")
  /\ files (analyze_voice Examples.posix_disk_full Examples.upload
             (initial_world ∅)).2 = ∅.
Proof. split; vm_compute; reflexivity. Qed.
